(** * Green Travel Planner: the emission scoring engine of [script.js]

    A shallow embedding of [roundTo], [computeModes], [classifyScore],
    [classifyTrip], [loadRecentTrips], [saveRecentTrip], the values
    [renderResults] computes, the theme toggle and the submit handler of
    [src/script.js], with the properties of the engine proved about it.

    Numbers.  The functions are embedded twice.  The general properties are
    proved about the embedding on exact rationals [Q]: every finite double
    is a rational, the comparisons against the integer thresholds of the
    filter are exact, and the rounding of [roundTo] is the mathematical
    one; equality of numbers is [Qeq] ([==]), since a rational has several
    representations.  The module [Binary64] embeds the engine on IEEE 754
    binary64 numbers, as the code computes, with the infinities and NaN; it
    serves to evaluate the code where the two differ.  Properties that
    depend on sizes are stated with the range in which binary64 follows the
    exact arithmetic: [distanceLimit], below which no product overflows,
    and [exactRange], below which the decimals of [roundTo] are kept
    apart. *)

From Stdlib Require Import Floats.
From Stdlib Require Import QArith Qround Qabs ZArith List String Bool Lia Lqa.
From Stdlib Require Import Sorted Permutation.
Import ListNotations.

Set Warnings "-inexact-float".

Open Scope Q_scope.

(** ** Numbers *)

Module Num.

(** [a < b] on numbers, as a boolean. *)
Definition ltb (a b : Q) : bool :=
  match a ?= b with Lt => true | _ => false end.

(** [a <= b] on numbers, as a boolean. *)
Definition leb (a b : Q) : bool :=
  match a ?= b with Gt => false | _ => true end.

(** [a === b] on numbers. *)
Definition eqb (a b : Q) : bool :=
  match a ?= b with Eq => true | _ => false end.

(** [Math.max(a, b)]. *)
Definition max (a b : Q) : Q := if ltb a b then b else a.

(** [Math.round]: the nearest integer, a half going up (towards
    +infinity). *)
Definition Math_round (x : Q) : Z := Qfloor (x + (1 # 2)).

(** [Math.pow(10, decimals)] for a natural number of decimals. *)
Definition pow10 (decimals : nat) : Q := inject_Z (10 ^ Z.of_nat decimals).

End Num.

(** [roundTo(value, decimals)], script.js lines 63-66. *)
Definition roundTo (value : Q) (decimals : nat) : Q :=
  let factor := Num.pow10 decimals in
  inject_Z (Num.Math_round (value * factor)) / factor.

(** ** The mode table *)

(** The keys of [EMISSION_FACTORS] and [MODE_META]. *)
Inductive ModeKey : Type :=
  | walk | cycle | bus | metro | bike | car | carpool | evCar | flight.

Definition ModeKey_eqb (a b : ModeKey) : bool :=
  match a, b with
  | walk, walk | cycle, cycle | bus, bus | metro, metro | bike, bike
  | car, car | carpool, carpool | evCar, evCar | flight, flight => true
  | _, _ => false
  end.

(** [Object.entries(EMISSION_FACTORS)]: the table in its definition order
    (kg CO2 per passenger-km). *)
Definition EMISSION_FACTORS : list (ModeKey * Q) :=
  [ (walk, 0);
    (cycle, 0);
    (bus, 105 # 1000);
    (metro, 41 # 1000);
    (bike, 103 # 1000);
    (car, 192 # 1000);
    (carpool, (192 # 1000) / 3);
    (evCar, 5 # 100);
    (flight, 255 # 1000) ].

Record Meta : Type := mkMeta {
  meta_label : string;
  meta_icon : string;
  meta_description : string
}.

(** [MODE_META[key]]. *)
Definition MODE_META (key : ModeKey) : Meta :=
  match key with
  | walk => mkMeta "Walking" "🚶"
      "Best for short distances. Zero emissions and great for health."
  | cycle => mkMeta "Cycling" "🚴"
      "Perfect for short to medium distances with near-zero emissions."
  | bus => mkMeta "Bus" "🚌"
      "Good for city travel with low emissions per passenger."
  | metro => mkMeta "Metro / Train" "🚆"
      "One of the cleanest options for medium and long distances."
  | bike => mkMeta "Motorbike" "🏍️"
      "Better than a car for a single person, but not as green as public transport."
  | car => mkMeta "Car (Solo Petrol)" "🚗"
      "High emissions when travelling alone. Use only if necessary."
  | carpool => mkMeta "Car-pool" "🚘"
      "Sharing the ride cuts emissions and cost per person."
  | evCar => mkMeta "Electric Car" "🚙"
      "Much lower emissions than petrol, especially when grid is clean."
  | flight => mkMeta "Flight" "✈️"
      "Very high emissions. Try to avoid for short distances."
  end.

(** ** computeModes *)

(** An object pushed onto [modes] by the loop (lines 85-91), before the
    score is attached. *)
Record ModeEntry : Type := mkEntry {
  entry_key : ModeKey;
  entry_label : string;
  entry_icon : string;
  entry_description : string;
  entry_emissionKg : Q
}.

(** The same object once [forEach] has set [greenScore] on it. *)
Record ModeEvaluation : Type := mkEval {
  key : ModeKey;
  label : string;
  icon : string;
  description : string;
  emissionKg : Q;
  greenScore : Q
}.

(** The five [continue] guards of the loop body (lines 76-81), in order:
    [true] when the mode is skipped. *)
Definition skipped (distanceKm : Q) (purpose : string) (k : ModeKey) : bool :=
  if Num.ltb distanceKm 1
     && (ModeKey_eqb k bus || ModeKey_eqb k metro || ModeKey_eqb k flight)
  then true
  else if Num.ltb distanceKm 2 && ModeKey_eqb k flight then true
  else if Num.ltb distanceKm 3 && ModeKey_eqb k metro then true
  else if Num.ltb distanceKm 5 && ModeKey_eqb k flight then true
  else if Num.ltb distanceKm 10 && String.eqb purpose "daily"
          && ModeKey_eqb k flight then true
  else false.

(** The [for ... of entries] loop (lines 74-92): the entries that are not
    skipped, each with its rounded emission, in table order. *)
Fixpoint collect (distanceKm : Q) (purpose : string)
    (entries : list (ModeKey * Q)) : list ModeEntry :=
  match entries with
  | [] => []
  | (k, factor) :: rest =>
      if skipped distanceKm purpose k then collect distanceKm purpose rest
      else
        let emission := roundTo (factor * distanceKm) 3 in
        mkEntry k (meta_label (MODE_META k)) (meta_icon (MODE_META k))
                (meta_description (MODE_META k)) emission
        :: collect distanceKm purpose rest
  end.

(** [Math.max(...xs)] on a list whose first element is [x]. *)
Definition Math_max (x : Q) (xs : list Q) : Q := fold_left Num.max xs x.

(** The predicate of line 95: [m => m.emissionKg > 0]. *)
Definition hasEmission (m : ModeEntry) : bool :=
  Num.ltb 0 (entry_emissionKg m).

(** Lines 95-98: the largest positive emission, or 1 when there is none. *)
Definition maxEmissionOf (modes : list ModeEntry) : Q :=
  let nonZero := filter hasEmission modes in
  match map entry_emissionKg nonZero with
  | [] => 1
  | x :: xs => Math_max x xs
  end.

(** The body of the [forEach] callback (lines 102-108). *)
Definition scoreOf (maxEmission : Q) (emission : Q) : Q :=
  if Num.eqb emission 0 then 100
  else
    let ratio := emission / maxEmission in
    let score := 100 - ratio * 80 in
    Num.max 20 (roundTo score 0).

Definition withScore (maxEmission : Q) (m : ModeEntry) : ModeEvaluation :=
  mkEval (entry_key m) (entry_label m) (entry_icon m) (entry_description m)
         (entry_emissionKg m) (scoreOf maxEmission (entry_emissionKg m)).

(** The comparator of line 112. *)
Definition byEmission (a b : ModeEvaluation) : Q :=
  emissionKg a - emissionKg b.

(** [Array.prototype.sort] with a comparator.  The sort is stable, and for a
    consistent comparator the stable result is unique, so it is modelled by
    a stable insertion sort: an element moves behind exactly the elements
    the comparator puts strictly before it. *)
Section Sort.

Context {A : Type} (cmp : A -> A -> Q).

Fixpoint sort_insert (x : A) (l : list A) : list A :=
  match l with
  | [] => [x]
  | y :: l' =>
      if Num.ltb 0 (cmp x y) then y :: sort_insert x l' else x :: l
  end.

Definition Array_sort (l : list A) : list A :=
  fold_right sort_insert [] l.

End Sort.

(** The scored list before the final sort (lines 69-109). *)
Definition scoredModes (distanceKm : Q) (purpose : string)
    : list ModeEvaluation :=
  let modes := collect distanceKm purpose EMISSION_FACTORS in
  let maxEmission := maxEmissionOf modes in
  map (withScore maxEmission) modes.

(** [computeModes(distanceKm, purpose)], script.js lines 68-115. *)
Definition computeModes (distanceKm : Q) (purpose : string)
    : list ModeEvaluation :=
  Array_sort byEmission (scoredModes distanceKm purpose).

(** The keys of a result, in order. *)
Definition keysOf (l : list ModeEvaluation) : list ModeKey := map key l.

(** The eligible set: the keys the filter lets through, in table order. *)
Definition eligible (distanceKm : Q) (purpose : string) : list ModeKey :=
  map entry_key (collect distanceKm purpose EMISSION_FACTORS).

(** All keys of the table. *)
Definition allModes : list ModeKey := map fst EMISSION_FACTORS.

(** The position of a key in the table. *)
Definition tableIndex (k : ModeKey) : nat :=
  match k with
  | walk => 0 | cycle => 1 | bus => 2 | metro => 3 | bike => 4
  | car => 5 | carpool => 6 | evCar => 7 | flight => 8
  end%nat.

(** ** Auxiliary classifier *)

(** [classifyTrip(distanceKm)], lines 124-129. *)
Definition classifyTrip (distanceKm : Q) : string :=
  if Num.leb distanceKm 2 then "Very short (ideal for walking/cycling)"
  else if Num.leb distanceKm 8 then "Short city trip"
  else if Num.leb distanceKm 30 then "Medium city / town trip"
  else "Long distance trip".

(** ** Recent trips *)

(** The record passed to [saveRecentTrip] (lines 390-398). *)
Record Trip : Type := mkTrip {
  from : string;
  to : string;
  distance : Q;
  bestLabel : string;
  bestEmission : Q;
  tripType : string;
  purposeLabel : string
}.

(** What [localStorage] holds under [STORAGE_KEY].  The text itself is not
    modelled, only what [loadRecentTrips] can tell apart: an empty string, a
    text [JSON.parse] throws on, a text that parses to something that is not
    an array, and the text of an array of records ([JSON.stringify] of a
    list of trips, read back by [JSON.parse]). *)
Inductive StoredText : Type :=
  | EmptyText
  | InvalidJson
  | NotAnArray
  | TripArray (data : list Trip).

(** The storage slot: [None] when [getItem] returns [null]. *)
Definition Storage : Type := option StoredText.

(** [loadRecentTrips()], lines 134-144. *)
Definition loadRecentTrips (store : Storage) : list Trip :=
  match store with
  | None => []
  | Some EmptyText => []
  | Some InvalidJson => []
  | Some NotAnArray => []
  | Some (TripArray data) => data
  end.

(** [saveRecentTrip(trip)], lines 146-152: the returned list and the new
    storage. *)
Definition saveRecentTrip (trip : Trip) (store : Storage)
    : list Trip * Storage :=
  let current := loadRecentTrips store in
  let current := trip :: current in
  let trimmed := firstn 6 current in
  (trimmed, Some (TripArray trimmed)).

(** Saving a sequence of trips one after the other, oldest first: the
    storage at the end. *)
Definition saveAll (trips : list Trip) (store : Storage) : Storage :=
  fold_left (fun st t => snd (saveRecentTrip t st)) trips store.

(** [s || fallback] on strings: the empty string is falsy. *)
Definition orElse (s fallback : string) : string :=
  if String.eqb s "" then fallback else s.

(** The purpose label of lines 381-388. *)
Definition purposeLabelOf (purpose : string) : string :=
  if String.eqb purpose "daily" then "Daily commute"
  else if String.eqb purpose "casual" then "Casual outing"
  else if String.eqb purpose "work" then "Work / Business"
  else "Long journey".

(** The submit handler (lines 360-402) without its rendering: the inputs are
    the trimmed texts of the two endpoints, the value of the purpose select
    and the parsed distance.  [None] is the alert for a distance that is not
    positive; otherwise the storage after the handler, which saves a record
    when the result has a first mode. *)
Definition onSubmit (fromText toText purposeValue : string) (parsed : Q)
    (store : Storage) : option Storage :=
  let from := orElse fromText "Unknown" in
  let to := orElse toText "Unknown" in
  let purpose := orElse purposeValue "daily" in
  if Num.leb parsed 0 then None
  else
    let distanceKm := roundTo parsed 2 in
    let modes := computeModes distanceKm purpose in
    match modes with
    | [] => Some store
    | best :: _ =>
        let tripType := classifyTrip distanceKm in
        let purposeLabel := purposeLabelOf purpose in
        Some (snd (saveRecentTrip
                     (mkTrip from to distanceKm (label best) (emissionKg best)
                             tripType purposeLabel)
                     store))
    end.

(** ** Score classifier *)

(** The object returned by [classifyScore]. *)
Record ScoreInfo : Type := mkScoreInfo {
  info_label : string;
  info_emoji : string
}.

(** [classifyScore(score)], lines 117-122. *)
Definition classifyScore (score : Q) : ScoreInfo :=
  if Num.leb 85 score then mkScoreInfo "Excellent" "🌟"
  else if Num.leb 70 score then mkScoreInfo "Good" "✅"
  else if Num.leb 55 score then mkScoreInfo "Ok" "⚖️"
  else mkScoreInfo "Could be greener" "⚠️".

(** ** What renderResults computes *)

(** The values [renderResults] (lines 155-291) computes from the list of
    modes and splices into the page.  The page itself and the conversion of
    numbers to text are not modelled. *)

(** [modes.reduce((sum, m) => sum + m.greenScore, 0) / modes.length],
    lines 175-176. *)
Definition averageScore (modes : list ModeEvaluation) : Q :=
  fold_left (fun sum m => sum + greenScore m) modes 0
  / inject_Z (Z.of_nat (List.length modes)).

(** The callback of line 194:
    [(max, m) => (m.emissionKg > max ? m.emissionKg : max)]. *)
Definition barStep (max : Q) (m : ModeEvaluation) : Q :=
  if Num.ltb max (emissionKg m) then emissionKg m else max.

(** The maximum of lines 193-196: a [reduce] that starts from 1. *)
Definition barMaxEmission (modes : list ModeEvaluation) : Q :=
  fold_left barStep modes 1.

(** The width of a card's bar in percent, lines 199-200. *)
Definition barPercentage (maxEmission : Q) (mode : ModeEvaluation) : Q :=
  if Num.eqb (emissionKg mode) 0 then 15
  else Num.max 10 (emissionKg mode / maxEmission * 100).

(** The three texts of the "Potential benefit" box, lines 246-256: the
    dash, the saving with the label of the transit mode, and the remark
    that the car is not the worst. *)
Inductive Benefit : Type :=
  | NoComparison
  | SavedBy (saved : Q) (transitLabel : string)
  | CarNotWorst.

(** The predicate of line 247: [m => m.key === "bus" || m.key === "metro"]. *)
Definition isTransit (m : ModeEvaluation) : bool :=
  ModeKey_eqb (key m) bus || ModeKey_eqb (key m) metro.

(** Lines 246-256. *)
Definition potentialBenefit (modes : list ModeEvaluation) : Benefit :=
  let carMode := find (fun m => ModeKey_eqb (key m) car) modes in
  let busMode := find isTransit modes in
  match carMode, busMode with
  | Some c, Some b =>
      let saved := emissionKg c - emissionKg b in
      if Num.ltb 0 saved then SavedBy (roundTo saved 2) (label b)
      else CarNotWorst
  | _, _ => NoComparison
  end.

(** What the results section shows. *)
Record ResultsView : Type := mkView {
  view_best : ModeEvaluation;
  view_worst : ModeEvaluation;
  view_tripType : string;
  view_bestEmission : Q;
  view_worstEmission : Q;
  view_hero : ScoreInfo;
  view_cards : list (ModeEvaluation * Q * Q * ScoreInfo);
  view_average : Q;
  view_benefit : Benefit
}.

(** [renderResults(modes, distanceKm, ...)] on a page that has the four
    sections: [None] when the section is hidden (no modes).  A card is the
    mode, the width of its bar, the emission shown and the score band. *)
Definition renderResults (modes : list ModeEvaluation) (distanceKm : Q)
    : option ResultsView :=
  match modes with
  | [] => None
  | best :: _ =>
      let worst := last modes best in
      let maxEmission := barMaxEmission modes in
      Some (mkView best worst (classifyTrip distanceKm)
              (roundTo (emissionKg best) 2) (roundTo (emissionKg worst) 2)
              (classifyScore (greenScore best))
              (map (fun mode =>
                      (mode, barPercentage maxEmission mode,
                       roundTo (emissionKg mode) 3,
                       classifyScore (greenScore mode)))
                   modes)
              (roundTo (averageScore modes) 1)
              (potentialBenefit modes))
  end.

(** ** Theme toggle *)

(** What [initThemeToggle] reads and writes: whether [document.body] has
    the class "light", the text of the toggle button, and the value stored
    under "green_travel_theme" ([None] when there is none). *)
Record ThemePage : Type := mkTheme {
  bodyLight : bool;
  buttonText : string;
  savedTheme : option string
}.

(** The body of [initThemeToggle] before the listener is installed, lines
    330-334, on a page that has the button. *)
Definition initThemeToggle (pg : ThemePage) : ThemePage :=
  match savedTheme pg with
  | Some t =>
      if String.eqb t "light" then mkTheme true "🌙" (savedTheme pg) else pg
  | None => pg
  end.

(** The click listener, lines 336-341. *)
Definition clickThemeToggle (pg : ThemePage) : ThemePage :=
  let isLight := negb (bodyLight pg) in
  mkTheme isLight (if isLight then "🌙" else "☀️")
          (Some (if isLight then "light" else "dark")%string).

(** A reload: the body class and the button text are those of the
    document as served, the storage is kept, and [initThemeToggle] runs. *)
Definition reloadTheme (servedLight : bool) (servedText : string)
    (pg : ThemePage) : ThemePage :=
  initThemeToggle (mkTheme servedLight servedText (savedTheme pg)).

(** ** Vocabulary of the properties *)

(** The modes no guard mentions. *)
Definition unfiltered : list ModeKey := [walk; cycle; bike; car; carpool; evCar].

(** [a] is a proper subset of [b]. *)
Definition strictSubset (a b : list ModeKey) : Prop :=
  incl a b /\ ~ incl b a.

(** The factor of a mode: [EMISSION_FACTORS[key]]. *)
Definition factorOf (k : ModeKey) : Q :=
  match find (fun e => ModeKey_eqb k (fst e)) EMISSION_FACTORS with
  | Some e => snd e
  | None => 0
  end.

(** The evaluation of mode [k] in the result for [d] and [p], when the
    filter lets [k] through. *)
Definition evaluationOf (d : Q) (p : string) (k : ModeKey) : ModeEvaluation :=
  withScore (maxEmissionOf (collect d p EMISSION_FACTORS))
    (mkEntry k (meta_label (MODE_META k)) (meta_icon (MODE_META k))
             (meta_description (MODE_META k)) (roundTo (factorOf k * d) 3)).

(** The rounded score of a mode with a non-zero emission, before the floor
    of 20 is applied. *)
Definition rounded (M e : Q) : Z := Num.Math_round (100 - e / M * 80).

(** ** Ranges of distances *)



(** ** Orders on results *)

(** The comparator [(x, y) => e(x) - e(y)] of a sort by a numeric field. *)
Definition byField {A : Type} (e : A -> Q) (x y : A) : Q := e x - e y.

(** Ascending by [e]; elements with equal [e] in the order [T]. *)
Definition stableOrder {A : Type} (e : A -> Q) (T : A -> A -> Prop)
    (x y : A) : Prop :=
  e x < e y \/ (e x == e y /\ T x y).

(** Ascending by emission. *)
Definition emissionOrder (a b : ModeEvaluation) : Prop :=
  emissionKg a <= emissionKg b.

(** The place of a mode in the table decides between equal emissions. *)
Definition tableOrder (a b : ModeEvaluation) : Prop :=
  (tableIndex (key a) < tableIndex (key b))%nat.

(** Ascending by emission, ties in table order. *)
Definition rankOrder : ModeEvaluation -> ModeEvaluation -> Prop :=
  stableOrder emissionKg tableOrder.

(** * The engine on binary64 numbers *)

(** The same functions with JavaScript's own numbers: IEEE 754 binary64,
    every product, quotient and difference rounded to the nearest double,
    with the infinities and NaN.  The literals are read as the nearest
    double, as JavaScript reads them. *)

Module Binary64.

Local Open Scope float_scope.

(** [Math.round]: a double with a non-negative exponent is an integer
    already; otherwise the floor of the value plus one half, computed on
    the integers.  Zeros, infinities and NaN are returned as they are; a
    result of zero keeps the sign of the argument. *)
Definition Math_round (x : float) : float :=
  match Prim2SF x with
  | S754_finite s m e =>
      if (0 <=? e)%Z then x
      else
        let v := if s then Z.neg m else Z.pos m in
        match ((2 * v + 2 ^ (- e)) / 2 ^ (1 - e))%Z with
        | Z0 => if s then -0 else 0
        | Z.pos k => SF2Prim (S754_finite false k 0)
        | Z.neg k => SF2Prim (S754_finite true k 0)
        end
  | _ => x
  end.

(** [Math.pow(10, decimals)]; the products are exact up to 22 decimals, and
    the code passes 0 to 3. *)
Fixpoint pow10 (decimals : nat) : float :=
  match decimals with
  | O => 1
  | S k => 10 * pow10 k
  end.

(** [Math.max(a, b)]: NaN when either argument is NaN. *)
Definition Math_max2 (a b : float) : float :=
  if is_nan a || is_nan b then nan else if a <? b then b else a.

(** [Math.max(...xs)]. *)
Definition Math_max (xs : list float) : float :=
  fold_left Math_max2 xs neg_infinity.

(** [roundTo(value, decimals)], lines 63-66. *)
Definition roundTo (value : float) (decimals : nat) : float :=
  let factor := pow10 decimals in
  Math_round (value * factor) / factor.

(** [Object.entries(EMISSION_FACTORS)], lines 2-12. *)
Definition EMISSION_FACTORS : list (ModeKey * float) :=
  [ (walk, 0);
    (cycle, 0);
    (bus, 0.105);
    (metro, 0.041);
    (bike, 0.103);
    (car, 0.192);
    (carpool, 0.192 / 3);
    (evCar, 0.05);
    (flight, 0.255) ].

(** An object of [modes] with its score. *)
Record ModeEvaluation : Type := mkEval {
  key : ModeKey;
  label : string;
  icon : string;
  description : string;
  emissionKg : float;
  greenScore : float
}.

(** The five [continue] guards, lines 76-81. *)
Definition skipped (distanceKm : float) (purpose : string) (k : ModeKey)
    : bool :=
  if (distanceKm <? 1)
     && (ModeKey_eqb k bus || ModeKey_eqb k metro || ModeKey_eqb k flight)
  then true
  else if (distanceKm <? 2) && ModeKey_eqb k flight then true
  else if (distanceKm <? 3) && ModeKey_eqb k metro then true
  else if (distanceKm <? 5) && ModeKey_eqb k flight then true
  else if (distanceKm <? 10) && String.eqb purpose "daily"
          && ModeKey_eqb k flight then true
  else false.

(** The loop of lines 74-92: key and rounded emission of the modes that are
    not skipped. *)
Fixpoint collect (distanceKm : float) (purpose : string)
    (entries : list (ModeKey * float)) : list (ModeKey * float) :=
  match entries with
  | [] => []
  | (k, factor) :: rest =>
      if skipped distanceKm purpose k then collect distanceKm purpose rest
      else (k, roundTo (factor * distanceKm) 3)
           :: collect distanceKm purpose rest
  end.

(** Lines 95-98. *)
Definition maxEmissionOf (modes : list (ModeKey * float)) : float :=
  let nonZero := filter (fun m => 0 <? snd m) modes in
  match nonZero with
  | [] => 1
  | _ :: _ => Math_max (map snd nonZero)
  end.

(** The body of the [forEach] callback, lines 102-108. *)
Definition scoreOf (maxEmission : float) (emission : float) : float :=
  if emission =? 0 then 100
  else
    let ratio := emission / maxEmission in
    let score := 100 - ratio * 80 in
    Math_max2 20 (roundTo score 0).

Definition withScore (maxEmission : float) (m : ModeKey * float)
    : ModeEvaluation :=
  mkEval (fst m) (meta_label (MODE_META (fst m)))
         (meta_icon (MODE_META (fst m)))
         (meta_description (MODE_META (fst m)))
         (snd m) (scoreOf maxEmission (snd m)).

(** The stable sort of line 112: an element moves behind the elements the
    comparator [a.emissionKg - b.emissionKg] puts strictly before it; a
    comparator result of NaN counts as 0. *)
Fixpoint sort_insert (x : ModeEvaluation) (l : list ModeEvaluation)
    : list ModeEvaluation :=
  match l with
  | [] => [x]
  | y :: l' =>
      if 0 <? emissionKg x - emissionKg y then y :: sort_insert x l'
      else x :: l
  end.

(** [computeModes(distanceKm, purpose)], lines 68-115. *)
Definition computeModes (distanceKm : float) (purpose : string)
    : list ModeEvaluation :=
  let modes := collect distanceKm purpose EMISSION_FACTORS in
  let maxEmission := maxEmissionOf modes in
  fold_right sort_insert [] (map (withScore maxEmission) modes).

End Binary64.

(** * Properties *)

(** ** The engine on concrete queries *)

Example keys_half_km_daily :
  keysOf (computeModes (1 # 2) "daily")
  = [walk; cycle; evCar; carpool; bike; car].
Proof. reflexivity. Qed.

Example keys_5_km_daily :
  keysOf (computeModes 5 "daily")
  = [walk; cycle; metro; evCar; carpool; bike; bus; car].
Proof. reflexivity. Qed.

Example keys_15_km_daily :
  keysOf (computeModes 15 "daily")
  = [walk; cycle; metro; evCar; carpool; bike; bus; car; flight].
Proof. reflexivity. Qed.

Example car_10_km_work :
  emissionKg (evaluationOf 10 "work" car) == 192 # 100 /\
  greenScore (evaluationOf 10 "work" car) == 40 /\
  greenScore (evaluationOf 10 "work" flight) == 20.
Proof. repeat split. Qed.

Example ties_keep_table_order :
  map (fun m => (key m, Qred (emissionKg m))) (computeModes (1 # 100) "long")
  = [(walk, 0); (cycle, 0); (bike, 1 # 1000); (carpool, 1 # 1000);
     (evCar, 1 # 1000); (car, 1 # 500)].
Proof. reflexivity. Qed.

(** ** Comparisons and rounding *)

Lemma ltb_true (a b : Q) : Num.ltb a b = true <-> a < b.
Proof.
  unfold Num.ltb. rewrite Qlt_alt. destruct (a ?= b); intuition congruence.
Qed.

Lemma ltb_false (a b : Q) : Num.ltb a b = false <-> b <= a.
Proof.
  rewrite <- not_true_iff_false, ltb_true. split.
  - apply Qnot_lt_le.
  - intros H1 H2. exact (Qlt_not_le _ _ H2 H1).
Qed.

Lemma leb_true (a b : Q) : Num.leb a b = true <-> a <= b.
Proof.
  unfold Num.leb. rewrite Qle_alt. destruct (a ?= b); intuition congruence.
Qed.

Lemma eqb_true (a b : Q) : Num.eqb a b = true <-> a == b.
Proof.
  unfold Num.eqb. rewrite Qeq_alt. destruct (a ?= b); intuition congruence.
Qed.

Lemma eqb_false (a b : Q) : Num.eqb a b = false <-> ~ a == b.
Proof.
  rewrite <- not_true_iff_false, eqb_true. reflexivity.
Qed.

Lemma max_cases (a b : Q) :
  (a < b /\ Num.max a b = b) \/ (b <= a /\ Num.max a b = a).
Proof.
  unfold Num.max. destruct (Num.ltb a b) eqn:E.
  - left. split; [now apply ltb_true | reflexivity].
  - right. split; [now apply ltb_false | reflexivity].
Qed.

Lemma round_lower (x : Q) : inject_Z (Num.Math_round x) <= x + (1 # 2).
Proof. apply Qfloor_le. Qed.

Lemma round_upper (x : Q) : x + (1 # 2) < inject_Z (Num.Math_round x) + 1.
Proof.
  unfold Num.Math_round.
  pose proof (Qlt_floor (x + (1 # 2))) as H.
  rewrite inject_Z_plus in H. exact H.
Qed.

Lemma round_mono (x y : Q) :
  x <= y -> (Num.Math_round x <= Num.Math_round y)%Z.
Proof.
  intros H. apply Qfloor_resp_le. lra.
Qed.

Lemma round_ext (x y : Q) : x == y -> Num.Math_round x = Num.Math_round y.
Proof.
  intros H. apply Z.le_antisymm; apply round_mono; rewrite H; apply Qle_refl.
Qed.

Lemma round_int (z : Z) : Num.Math_round (inject_Z z) = z.
Proof.
  apply Z.le_antisymm.
  - apply Z.lt_succ_r. rewrite Zlt_Qlt.
    pose proof (round_lower (inject_Z z)).
    unfold Z.succ. rewrite inject_Z_plus. change (inject_Z 1) with 1. lra.
  - rewrite Zle_Qle.
    pose proof (round_upper (inject_Z z)).
    assert (inject_Z z < inject_Z (Num.Math_round (inject_Z z)) + 1) by lra.
    rewrite <- (inject_Z_plus _ 1) in H0. rewrite <- Zlt_Qlt in H0.
    rewrite <- Zle_Qle. lia.
Qed.

Lemma round_le_int (x : Q) (z : Z) :
  x <= inject_Z z -> (Num.Math_round x <= z)%Z.
Proof. intros H. rewrite <- (round_int z). now apply round_mono. Qed.

Lemma round_ge_int (x : Q) (z : Z) :
  inject_Z z <= x -> (z <= Num.Math_round x)%Z.
Proof. intros H. rewrite <- (round_int z) at 1. now apply round_mono. Qed.



(** [roundTo] with 3 decimals counts thousandths. *)
Lemma roundTo_3 (v : Q) :
  roundTo v 3 == inject_Z (Num.Math_round (v * 1000)) / 1000.
Proof. reflexivity. Qed.

(** [roundTo] with 0 decimals is [Math.round]. *)
Lemma roundTo_0 (v : Q) : roundTo v 0 == inject_Z (Num.Math_round v).
Proof.
  unfold roundTo, Num.pow10. simpl Z.of_nat. change (inject_Z (10 ^ 0)) with 1.
  rewrite (round_ext (v * 1) v) by ring. field.
Qed.

(** ** The applicability filter *)


Ltac cmp_cases d :=
  repeat match goal with
  | |- context [Num.ltb d ?c] =>
      let E := fresh "E" in
      destruct (Num.ltb d c) eqn:E;
      [apply ltb_true in E | apply ltb_false in E]
  end.

Ltac skipped_pick :=
  first
    [ left; split; [reflexivity | lra]
    | right; left; split; [reflexivity | lra]
    | right; right; split;
      [reflexivity | first [left; lra | right; split; [lra | assumption]]] ].

(** What the five guards amount to. *)
Lemma skipped_iff (d : Q) (p : string) (k : ModeKey) :
  skipped d p k = true <->
  (k = bus /\ d < 1) \/ (k = metro /\ d < 3) \/
  (k = flight /\ (d < 5 \/ (d < 10 /\ p = "daily"%string))).
Proof.
  unfold skipped.
  destruct (String.eqb_spec p "daily") as [Hp | Hp];
    destruct k; cmp_cases d; simpl;
    (split;
     [ intros H; try discriminate H; skipped_pick
     | intros H; try reflexivity; exfalso;
       decompose [and or] H; try discriminate; try contradiction; lra ]).
Qed.

Lemma collect_keys (d : Q) (p : string) (entries : list (ModeKey * Q))
    (k : ModeKey) :
  In k (map entry_key (collect d p entries)) <->
  In k (map fst entries) /\ skipped d p k = false.
Proof.
  induction entries as [| [k0 f] rest IH]; simpl.
  - tauto.
  - destruct (skipped d p k0) eqn:E; simpl; rewrite IH; split.
    + tauto.
    + intros [[-> | H] Hs]; [congruence | tauto].
    + intros [<- | H]; tauto.
    + tauto.
Qed.

Lemma allModes_complete (k : ModeKey) : In k allModes.
Proof. destruct k; simpl; tauto. Qed.

(** A mode is eligible exactly when no guard skips it. *)
Lemma eligible_iff (d : Q) (p : string) (k : ModeKey) :
  In k (eligible d p) <-> skipped d p k = false.
Proof.
  unfold eligible. rewrite collect_keys.
  pose proof (allModes_complete k). unfold allModes in H. tauto.
Qed.

(** ** The sort keeps the elements *)

Lemma sort_insert_perm {A : Type} (cmp : A -> A -> Q) (x : A) (l : list A) :
  Permutation (sort_insert cmp x l) (x :: l).
Proof.
  induction l as [| y l IH]; simpl.
  - apply Permutation_refl.
  - destruct (Num.ltb 0 (cmp x y)).
    + apply perm_trans with (y :: x :: l).
      * now apply perm_skip.
      * apply perm_swap.
    + apply Permutation_refl.
Qed.

Lemma Array_sort_perm {A : Type} (cmp : A -> A -> Q) (l : list A) :
  Permutation (Array_sort cmp l) l.
Proof.
  induction l as [| x l IH]; simpl.
  - apply perm_nil.
  - apply perm_trans with (x :: Array_sort cmp l).
    + apply sort_insert_perm.
    + now apply perm_skip.
Qed.

Lemma scored_keys (d : Q) (p : string) :
  keysOf (scoredModes d p) = eligible d p.
Proof.
  unfold keysOf, scoredModes, eligible. rewrite map_map. reflexivity.
Qed.

(** The result holds the eligible modes, each once, in some order. *)
Lemma computeModes_keys (d : Q) (p : string) :
  Permutation (keysOf (computeModes d p)) (eligible d p).
Proof.
  rewrite <- scored_keys. unfold keysOf, computeModes.
  apply Permutation_map, Array_sort_perm.
Qed.

Lemma result_key_iff (d : Q) (p : string) (k : ModeKey) :
  In k (keysOf (computeModes d p)) <-> skipped d p k = false.
Proof.
  rewrite <- eligible_iff. split; apply Permutation_in.
  - apply computeModes_keys.
  - apply Permutation_sym, computeModes_keys.
Qed.

Lemma skipped_false_iff (d : Q) (p : string) (k : ModeKey) :
  skipped d p k = false <->
  ~ ((k = bus /\ d < 1) \/ (k = metro /\ d < 3) \/
     (k = flight /\ (d < 5 \/ (d < 10 /\ p = "daily"%string)))).
Proof. rewrite <- skipped_iff. symmetry. apply not_true_iff_false. Qed.

Lemma unfiltered_never_skipped (d : Q) (p : string) (k : ModeKey) :
  In k unfiltered -> skipped d p k = false.
Proof.
  intros H. apply skipped_false_iff.
  simpl in H. intros [[E _] | [[E _] | [E _]]]; subst k;
    decompose [or] H; try discriminate; contradiction.
Qed.

(** C2: for every distance > 0 and every purpose the result is not empty;
    walk, cycle, motorbike, car, carpool and electric car pass the filter
    and are in the result. *)
Theorem C2_result_never_empty (d : Q) (p : string) :
  0 < d ->
  computeModes d p <> [] /\
  forall k, In k unfiltered ->
            In k (eligible d p) /\ In k (keysOf (computeModes d p)).
Proof.
  intros _.
  assert (K : forall k, In k unfiltered ->
                In k (eligible d p) /\ In k (keysOf (computeModes d p))).
  { intros k Hk. split.
    - now apply eligible_iff, unfiltered_never_skipped.
    - now apply result_key_iff, unfiltered_never_skipped. }
  split; [| exact K].
  intros E. destruct (K walk) as [_ H]; [simpl; tauto |].
  rewrite E in H. exact H.
Qed.

Lemma C2_result_never_empty_witness :
  0 < (1 # 2) /\
  (computeModes (1 # 2) "daily" <> [] /\
   forall k, In k unfiltered ->
             In k (eligible (1 # 2) "daily") /\
             In k (keysOf (computeModes (1 # 2) "daily"))).
Proof.
  split; [reflexivity | apply (C2_result_never_empty (1 # 2) "daily")].
  reflexivity.
Defined.

(** C3, as stated, fails: [evaluate(15, "daily")] does not exclude flight,
    since 15 is not below 10. *)
Lemma C3_flight_15_counterexample :
  ~ (In flight (keysOf (computeModes 15 "long")) /\
     ~ In flight (keysOf (computeModes 15 "daily"))).
Proof.
  intros [_ H]. apply H. apply result_key_iff. reflexivity.
Qed.

(** C3, amended: at distance 15 flight is in the result for "long" and for
    "daily" alike; for "daily" flight is in the result exactly from 10 km
    on, for "long" exactly from 5 km on. *)
Theorem C3_flight_rule :
  In flight (keysOf (computeModes 15 "long")) /\
  In flight (keysOf (computeModes 15 "daily")) /\
  (forall d, In flight (keysOf (computeModes d "daily")) <-> 10 <= d) /\
  (forall d, In flight (keysOf (computeModes d "long")) <-> 5 <= d).
Proof.
  repeat split; try (apply result_key_iff; reflexivity);
    rewrite result_key_iff, skipped_false_iff.
  - intros H. apply Qnot_lt_le. intros L. apply H.
    right. right. split; [reflexivity |]. right. now split.
  - intros H [[E _] | [[E _] | [_ [L | [L _]]]]]; try discriminate; lra.
  - intros H. apply Qnot_lt_le. intros L. apply H.
    right. right. split; [reflexivity |]. now left.
  - intros H [[E _] | [[E _] | [_ [L | [_ E]]]]]; try discriminate; lra.
Qed.

(** C4, as stated, fails: at 10 km for "work" no mode is excluded. *)
Lemma C4_strict_subset_counterexample :
  0 < 10 /\ ~ strictSubset (eligible 10 "work") allModes.
Proof.
  split; [reflexivity |].
  intros [_ H]. apply H. intros k _. apply eligible_iff.
  destruct k; reflexivity.
Qed.

(** C4, amended: the eligible set is a subset of the table's modes; it is a
    proper subset exactly when the distance is below 5, or below 10 with
    purpose "daily" (then flight is missing); otherwise it is the whole
    table. *)
Theorem C4_eligible_subset (d : Q) (p : string) :
  incl (eligible d p) allModes /\
  (strictSubset (eligible d p) allModes <->
   d < 5 \/ (d < 10 /\ p = "daily"%string)).
Proof.
  split; [intros k _; apply allModes_complete |].
  split.
  - intros [_ H].
    destruct (Qlt_le_dec d 5) as [L5 | G5]; [now left |].
    destruct (Qlt_le_dec d 10) as [L10 | G10].
    + destruct (String.eqb_spec p "daily") as [Hp | Hp]; [now right |].
      exfalso. apply H. intros k _. apply eligible_iff, skipped_false_iff.
      intros [[_ L] | [[_ L] | [_ [L | [_ E]]]]]; try contradiction; lra.
    + exfalso. apply H. intros k _. apply eligible_iff, skipped_false_iff.
      intros [[_ L] | [[_ L] | [_ [L | [L _]]]]]; lra.
  - intros H. split; [intros k _; apply allModes_complete |].
    intros I. specialize (I flight (allModes_complete flight)).
    apply eligible_iff, skipped_false_iff in I. apply I.
    right. right. split; [reflexivity | exact H].
Qed.

(** C8: for a fixed purpose, a mode that passes the filter at a distance
    [d > 0] passes it at every larger distance. *)
Theorem C8_filter_monotone (d d' : Q) (p : string) (k : ModeKey) :
  0 < d -> d < d' -> In k (eligible d p) -> In k (eligible d' p).
Proof.
  intros _ L. rewrite !eligible_iff, !skipped_false_iff.
  intros H [[E L1] | [[E L3] | [E [L5 | [L10 Hp]]]]]; apply H.
  - left. split; [exact E | lra].
  - right. left. split; [exact E | lra].
  - right. right. split; [exact E | left; lra].
  - right. right. split; [exact E | right; split; [lra | exact Hp]].
Qed.

Lemma C8_filter_monotone_witness :
  0 < 1 /\ 1 < 4 /\ In bus (eligible 1 "daily") /\
  In bus (eligible 4 "daily").
Proof.
  assert (I : In bus (eligible 1 "daily")) by (apply eligible_iff; reflexivity).
  split; [reflexivity |]. split; [reflexivity |]. split; [exact I |].
  apply (C8_filter_monotone 1 4 "daily" bus); [reflexivity | reflexivity | exact I].
Defined.

(** ** Emissions *)

Lemma factorOf_table (k : ModeKey) (f : Q) :
  In (k, f) EMISSION_FACTORS -> f = factorOf k.
Proof.
  simpl. intros H.
  repeat (destruct H as [H | H]; [inversion H; subst; reflexivity |]).
  contradiction.
Qed.

Lemma factorOf_nonneg (k : ModeKey) : 0 <= factorOf k.
Proof. destruct k; vm_compute; discriminate. Qed.

Lemma collect_In (d : Q) (p : string) (entries : list (ModeKey * Q))
    (m : ModeEntry) :
  In m (collect d p entries) ->
  exists f, In (entry_key m, f) entries /\
            m = mkEntry (entry_key m) (meta_label (MODE_META (entry_key m)))
                        (meta_icon (MODE_META (entry_key m)))
                        (meta_description (MODE_META (entry_key m)))
                        (roundTo (f * d) 3).
Proof.
  induction entries as [| [k f] rest IH]; simpl; [contradiction |].
  destruct (skipped d p k).
  - intros H. destruct (IH H) as [f' [H1 H2]]. exists f'. tauto.
  - intros [<- | H].
    + exists f. simpl. tauto.
    + destruct (IH H) as [f' [H1 H2]]. exists f'. tauto.
Qed.

(** Every element of the result is a table entry with its rounded emission
    and the score computed from the maximum of the eligible list. *)
Lemma computeModes_In (d : Q) (p : string) (a : ModeEvaluation) :
  In a (computeModes d p) ->
  In a (scoredModes d p) /\
  label a = meta_label (MODE_META (key a)) /\
  emissionKg a = roundTo (factorOf (key a) * d) 3 /\
  greenScore a =
    scoreOf (maxEmissionOf (collect d p EMISSION_FACTORS)) (emissionKg a).
Proof.
  intros H.
  apply (Permutation_in _ (Array_sort_perm byEmission _)) in H.
  split; [exact H |].
  unfold scoredModes in H. apply in_map_iff in H. destruct H as [m [<- Hm]].
  destruct (collect_In _ _ _ _ Hm) as [f [Hf E]].
  apply factorOf_table in Hf. subst f. rewrite E. simpl. tauto.
Qed.

Ltac push_inject :=
  rewrite ?inject_Z_plus, ?inject_Z_mult, ?inject_Z_opp;
  change (inject_Z 2) with 2; change (inject_Z 1) with 1.

(** Rounding a doubled value moves the rounded count by at most one unit
    off the doubled count. *)
Lemma round_double (y : Q) :
  (2 * Num.Math_round y - 1 <= Num.Math_round (2 * y)
   <= 2 * Num.Math_round y + 1)%Z.
Proof.
  pose proof (round_lower y) as Lo. pose proof (round_upper y) as Up.
  pose proof (round_lower (2 * y)) as Lo2.
  pose proof (round_upper (2 * y)) as Up2.
  set (n := Num.Math_round y) in *. set (m := Num.Math_round (2 * y)) in *.
  split.
  - apply Z.lt_succ_r. rewrite Zlt_Qlt. unfold Z.succ, Z.sub. push_inject. lra.
  - apply Z.lt_succ_r. rewrite Zlt_Qlt. unfold Z.succ. push_inject. lra.
Qed.

Lemma round_double_Q (y : Q) :
  2 * inject_Z (Num.Math_round y) - 1 <= inject_Z (Num.Math_round (2 * y))
  /\ inject_Z (Num.Math_round (2 * y)) <= 2 * inject_Z (Num.Math_round y) + 1.
Proof.
  destruct (round_double y) as [Lo Hi]. split.
  - rewrite Zle_Qle in Lo. revert Lo. unfold Z.sub. push_inject. lra.
  - rewrite Zle_Qle in Hi. revert Hi. push_inject. lra.
Qed.

Lemma thousandth (x : Q) : x / 1000 == x * (1 # 1000).
Proof. field. Qed.

Lemma roundTo_3_double (v : Q) :
  Qabs (roundTo (2 * v) 3 - 2 * roundTo v 3) <= 1 # 1000.
Proof.
  rewrite !roundTo_3.
  rewrite (round_ext (2 * v * 1000) (2 * (v * 1000))) by ring.
  destruct (round_double_Q (v * 1000)) as [Lo Hi].
  rewrite !thousandth.
  apply Qabs_Qle_condition. split; lra.
Qed.

Lemma roundTo_ext (x y : Q) (n : nat) : x == y -> roundTo x n = roundTo y n.
Proof.
  intros H. unfold roundTo.
  rewrite (round_ext (x * Num.pow10 n) (y * Num.pow10 n)); [reflexivity |].
  rewrite H. reflexivity.
Qed.

Lemma round_nonneg (x : Q) : 0 <= x -> (0 <= Num.Math_round x)%Z.
Proof. intros H. apply round_ge_int. exact H. Qed.

Lemma roundTo_3_nonneg (v : Q) : 0 <= v -> 0 <= roundTo v 3.
Proof.
  intros H. rewrite roundTo_3, thousandth.
  assert (0 <= inject_Z (Num.Math_round (v * 1000))).
  { change 0 with (inject_Z 0). rewrite <- Zle_Qle. apply round_nonneg. lra. }
  lra.
Qed.

(** With a distance that is not negative no emission is negative. *)
Lemma emission_nonneg (d : Q) (p : string) (a : ModeEvaluation) :
  0 <= d -> In a (computeModes d p) -> 0 <= emissionKg a.
Proof.
  intros Hd H. apply computeModes_In in H. destruct H as (_ & _ & E & _).
  rewrite E. apply roundTo_3_nonneg.
  apply Qmult_le_0_compat; [apply factorOf_nonneg | exact Hd].
Qed.

(** C6: for a distance [d > 0] and a mode present in the results for [d]
    and for [2 * d], the emission at [2 * d] is within 0.001 of twice the
    emission at [d]. *)
Theorem C6_emission_scales (d : Q) (p : string) (a b : ModeEvaluation) :
  0 < d ->
  In a (computeModes d p) -> In b (computeModes (2 * d) p) ->
  key a = key b ->
  Qabs (emissionKg b - 2 * emissionKg a) <= 1 # 1000.
Proof.
  intros _ Ha Hb K.
  apply computeModes_In in Ha. destruct Ha as (_ & _ & Ea & _).
  apply computeModes_In in Hb. destruct Hb as (_ & _ & Eb & _).
  rewrite Ea, Eb, <- K.
  rewrite (roundTo_ext (factorOf (key a) * (2 * d))
                       (2 * (factorOf (key a) * d))) by ring.
  apply roundTo_3_double.
Qed.

(** ** The maximum used for scoring *)

Lemma Math_max_ge (xs : list Q) (x y : Q) :
  In y (x :: xs) -> y <= Math_max x xs.
Proof.
  unfold Math_max. revert x y.
  induction xs as [| z xs IH]; simpl; intros x y H.
  - destruct H as [<- | []]. apply Qle_refl.
  - destruct (max_cases x z) as [[L E] | [L E]]; rewrite E.
    + destruct H as [<- | H].
      * apply Qle_trans with z; [now apply Qlt_le_weak |].
        apply IH. now left.
      * apply IH. exact H.
    + destruct H as [<- | [<- | H]].
      * apply IH. now left.
      * apply Qle_trans with x; [exact L | apply IH; now left].
      * apply IH. now right.
Qed.

Lemma Math_max_In (xs : list Q) (x : Q) : In (Math_max x xs) (x :: xs).
Proof.
  unfold Math_max. revert x.
  induction xs as [| z xs IH]; simpl; intros x.
  - now left.
  - destruct (max_cases x z) as [[_ E] | [_ E]]; rewrite E.
    + right. apply IH.
    + destruct (IH x) as [H | H]; [now left | right; now right].
Qed.

Section MaxEmission.

Variable modes : list ModeEntry.

Lemma positive_emissions (e : Q) :
  In e (map entry_emissionKg (filter hasEmission modes)) <->
  exists m, In m modes /\ 0 < entry_emissionKg m /\ entry_emissionKg m = e.
Proof.
  rewrite in_map_iff. split.
  - intros [m [E H]]. apply filter_In in H. destruct H as [H1 H2].
    exists m. apply ltb_true in H2. tauto.
  - intros [m [H1 [H2 E]]]. exists m. split; [exact E |].
    apply filter_In. split; [exact H1 | now apply ltb_true].
Qed.

(** Either no emission is positive and the maximum is 1, or the maximum is
    one of the positive emissions. *)
Lemma maxEmissionOf_cases :
  ((forall m, In m modes -> ~ 0 < entry_emissionKg m) /\
   maxEmissionOf modes = 1) \/
  (exists m, In m modes /\ 0 < entry_emissionKg m /\
             entry_emissionKg m = maxEmissionOf modes).
Proof.
  unfold maxEmissionOf.
  destruct (map entry_emissionKg (filter hasEmission modes)) as [| x xs] eqn:E.
  - left. split; [| reflexivity].
    intros m H1 H2.
    assert (I : In (entry_emissionKg m)
                   (map entry_emissionKg (filter hasEmission modes))).
    { apply positive_emissions. exists m. tauto. }
    rewrite E in I. exact I.
  - right. apply positive_emissions. rewrite E. apply Math_max_In.
Qed.

Lemma maxEmissionOf_pos : 0 < maxEmissionOf modes.
Proof.
  destruct maxEmissionOf_cases as [[_ E] | [m [_ [H E]]]]; rewrite <- ?E.
  - rewrite E. reflexivity.
  - exact H.
Qed.

Lemma maxEmissionOf_ge (m : ModeEntry) :
  In m modes -> 0 < entry_emissionKg m ->
  entry_emissionKg m <= maxEmissionOf modes.
Proof.
  intros H1 H2.
  assert (I : In (entry_emissionKg m)
                 (map entry_emissionKg (filter hasEmission modes))).
  { apply positive_emissions. exists m. tauto. }
  unfold maxEmissionOf.
  destruct (map entry_emissionKg (filter hasEmission modes)) as [| x xs].
  - contradiction.
  - now apply Math_max_ge.
Qed.

End MaxEmission.

(** ** The green score *)

Lemma pos_nonzero (e : Q) : 0 < e -> ~ e == 0.
Proof. intros H Z. rewrite Z in H. exact (Qlt_irrefl 0 H). Qed.

Section Score.

Variable M : Q.
Hypothesis M_pos : 0 < M.

Lemma ratio_le (a b : Q) : a <= b -> a / M <= b / M.
Proof.
  intros H. unfold Qdiv. apply Qmult_le_compat_r; [exact H |].
  apply Qinv_le_0_compat. now apply Qlt_le_weak.
Qed.

Lemma ratio_pos (a : Q) : 0 < a -> 0 < a / M.
Proof. intros H. apply Qlt_shift_div_l; [exact M_pos | lra]. Qed.

Lemma ratio_neg (a : Q) : a < 0 -> a / M < 0.
Proof. intros H. apply Qlt_shift_div_r; [exact M_pos | lra]. Qed.


Lemma scoreOf_zero (e : Q) : e == 0 -> scoreOf M e = 100.
Proof.
  intros H. unfold scoreOf. apply eqb_true in H. rewrite H. reflexivity.
Qed.

Lemma scoreOf_nonzero (e : Q) :
  ~ e == 0 ->
  (inject_Z (rounded M e) <= 20 /\ scoreOf M e == 20) \/
  (20 < inject_Z (rounded M e) /\ scoreOf M e == inject_Z (rounded M e)).
Proof.
  intros H. unfold scoreOf. apply eqb_false in H. rewrite H.
  destruct (max_cases 20 (roundTo (100 - e / M * 80) 0)) as [[L E] | [L E]];
    rewrite E; rewrite roundTo_0 in *; fold (rounded M e) in *.
  - right. split; [exact L | reflexivity].
  - left. split; [exact L | reflexivity].
Qed.

Lemma rounded_le_100 (e : Q) : 0 < e -> (rounded M e <= 100)%Z.
Proof.
  intros H. unfold rounded. apply round_le_int.
  pose proof (ratio_pos e H) as R. change (inject_Z 100) with 100.
  revert R. generalize (e / M). intros r R. lra.
Qed.

Lemma rounded_ge_100 (e : Q) : e < 0 -> (100 <= rounded M e)%Z.
Proof.
  intros H. unfold rounded. apply round_ge_int.
  pose proof (ratio_neg e H) as R. change (inject_Z 100) with 100.
  revert R. generalize (e / M). intros r R. lra.
Qed.

Lemma rounded_mono (e1 e2 : Q) : e1 <= e2 -> (rounded M e2 <= rounded M e1)%Z.
Proof.
  intros H. apply round_mono. pose proof (ratio_le e1 e2 H) as R.
  revert R. generalize (e1 / M), (e2 / M). intros r1 r2 R. lra.
Qed.


(** A mode with a positive emission scores an integer from 20 to 100. *)
Lemma scoreOf_range_pos (e : Q) :
  0 < e ->
  exists z : Z, scoreOf M e == inject_Z z /\ (20 <= z <= 100)%Z.
Proof.
  intros H.
  destruct (scoreOf_nonzero e) as [[L E] | [L E]];
    [now apply pos_nonzero | |].
  - exists 20%Z. split; [exact E | lia].
  - exists (rounded M e). split; [exact E |].
    split; [| now apply rounded_le_100].
    change 20 with (inject_Z 20) in L. rewrite <- Zlt_Qlt in L. lia.
Qed.


(** The score does not increase with the emission, as long as the positive
    emissions stay below the maximum. *)
Lemma scoreOf_mono (e1 e2 : Q) :
  (0 < e2 -> e2 <= M) -> e1 <= e2 -> scoreOf M e2 <= scoreOf M e1.
Proof.
  intros B H.
  destruct (Qeq_dec e1 0) as [Z1 | N1]; destruct (Qeq_dec e2 0) as [Z2 | N2].
  - rewrite (scoreOf_zero e1 Z1), (scoreOf_zero e2 Z2). apply Qle_refl.
  - rewrite (scoreOf_zero e1 Z1).
    assert (P : 0 < e2) by (apply Qle_lteq in H; destruct H; lra).
    destruct (scoreOf_range_pos e2 P) as [z [E [_ Hz]]]. rewrite E.
    change 100 with (inject_Z 100). now rewrite <- Zle_Qle.
  - rewrite (scoreOf_zero e2 Z2).
    assert (P : e1 < 0) by (apply Qle_lteq in H; destruct H; lra).
    pose proof (rounded_ge_100 e1 P) as G. rewrite Zle_Qle in G.
    change (inject_Z 100) with 100 in G.
    destruct (scoreOf_nonzero e1 N1) as [[L E] | [L E]]; lra.
  - pose proof (rounded_mono e1 e2 H) as G. rewrite Zle_Qle in G.
    destruct (scoreOf_nonzero e1 N1) as [[L1 E1] | [L1 E1]];
      destruct (scoreOf_nonzero e2 N2) as [[L2 E2] | [L2 E2]]; lra.
Qed.

End Score.

(** ** Scores in a result *)

(** An element of the result comes from an eligible entry, scored against
    the maximum of the eligible entries. *)
Lemma result_entry (d : Q) (p : string) (a : ModeEvaluation) :
  In a (computeModes d p) ->
  exists m, In m (collect d p EMISSION_FACTORS) /\
            entry_emissionKg m = emissionKg a /\
            greenScore a =
              scoreOf (maxEmissionOf (collect d p EMISSION_FACTORS))
                      (emissionKg a).
Proof.
  intros H. apply computeModes_In in H. destruct H as [H _].
  unfold scoredModes in H. apply in_map_iff in H. destruct H as [m [<- Hm]].
  exists m. simpl. tauto.
Qed.

Lemma result_below_max (d : Q) (p : string) (a : ModeEvaluation) :
  In a (computeModes d p) -> 0 < emissionKg a ->
  emissionKg a <= maxEmissionOf (collect d p EMISSION_FACTORS).
Proof.
  intros H P. destruct (result_entry d p a H) as [m [Hm [E _]]].
  rewrite <- E in *. now apply maxEmissionOf_ge.
Qed.






(** The result of the code at 1e306 km, on binary64 numbers: the products
    of the car and of the flight exceed the largest double, their emissions
    are Infinity and their scores NaN, and every other mode scores 100. *)
Example overflow_at_1e306 :
  map (fun m => (Binary64.key m, Binary64.emissionKg m, Binary64.greenScore m))
      (Binary64.computeModes 1e306 "work")
  = [ (walk, 0, 100); (cycle, 0, 100);
      (metro, 4.1000000000000003e+304, 100);
      (evCar, 5.0000000000000007e+304, 100);
      (carpool, 6.4e+304, 100);
      (bike, 1.0299999999999997e+305, 100);
      (bus, 1.05e+305, 100);
      (car, infinity, nan); (flight, infinity, nan) ]%float.
Proof. vm_compute. reflexivity. Qed.

(** At 1e305 km, within [distanceLimit], nothing overflows on binary64
    numbers: the scores are the integers the exact arithmetic gives. *)
Example no_overflow_at_1e305 :
  map (fun m => (Binary64.key m, Binary64.greenScore m))
      (Binary64.computeModes 1e305 "work")
  = [ (walk, 100); (cycle, 100); (metro, 87); (evCar, 84); (carpool, 80);
      (bike, 68); (bus, 67); (car, 40); (flight, 20) ]%float.
Proof. vm_compute. reflexivity. Qed.

(** The two embeddings can differ in the last decimal of an emission: at
    4.5 km the product for the motorbike is just below 463.5 on binary64
    numbers and exactly 463.5 on the rationals. *)
Example last_decimal_at_4_5_km :
  In (bike, 0.463%float)
     (map (fun m => (Binary64.key m, Binary64.emissionKg m))
          (Binary64.computeModes 4.5 "work")) /\
  emissionKg (evaluationOf (45 # 10) "work" bike) == 464 # 1000.
Proof.
  split; [vm_compute; repeat (first [left; reflexivity | right]) |].
  reflexivity.
Qed.

(** On binary64 numbers [roundTo] can leave the nearest decimal: the doubles
    written 0.995 and 1.005 both go to 1. *)
Example binary64_roundTo_near_halves :
  (Binary64.roundTo 0.995 2 = 1 /\ Binary64.roundTo 1.005 2 = 1)%float.
Proof. split; vm_compute; reflexivity. Qed.



(** ** The ranking *)

Section StableSort.

Context {A : Type}.
Variable e : A -> Q.
Variable T : A -> A -> Prop.

Lemma stableOrder_le (x y : A) : stableOrder e T x y -> e x <= e y.
Proof. intros [H | [H _]]; [now apply Qlt_le_weak | rewrite H; apply Qle_refl]. Qed.

Lemma sort_insert_sorted (x : A) (l : list A) :
  StronglySorted (stableOrder e T) l -> Forall (T x) l ->
  StronglySorted (stableOrder e T) (sort_insert (byField e) x l).
Proof.
  induction l as [| y l IH]; simpl; intros S F.
  - repeat constructor.
  - apply StronglySorted_inv in S. destruct S as [S Fy].
    inversion F as [| ? ? Txy Fx]; subst.
    destruct (Num.ltb 0 (byField e x y)) eqn:C.
    + apply ltb_true in C. unfold byField in C.
      constructor; [now apply IH |].
      apply (Permutation_Forall (Permutation_sym (sort_insert_perm (byField e) x l))).
      constructor; [left; lra | exact Fy].
    + apply ltb_false in C. unfold byField in C.
      assert (Lxy : e x <= e y) by lra.
      constructor; [now constructor |].
      assert (G : forall z, T x z -> e x <= e z -> stableOrder e T x z).
      { intros z Tz Lz. apply Qle_lteq in Lz. destruct Lz; [now left | now right]. }
      constructor; [now apply G |].
      rewrite Forall_forall in *. intros z Hz.
      apply G; [now apply Fx |].
      apply Qle_trans with (e y); [exact Lxy | apply stableOrder_le; now apply Fy].
Qed.

(** The sort of an input in [T]-order is ascending by [e], and elements
    with equal [e] keep their input order: the sort is stable. *)
Lemma Array_sort_sorted (l : list A) :
  StronglySorted T l -> StronglySorted (stableOrder e T) (Array_sort (byField e) l).
Proof.
  induction l as [| x l IH]; simpl; intros S.
  - constructor.
  - apply StronglySorted_inv in S. destruct S as [S F].
    apply sort_insert_sorted; [now apply IH |].
    apply (Permutation_Forall (Permutation_sym (Array_sort_perm (byField e) l))).
    exact F.
Qed.

End StableSort.

Lemma StronglySorted_weaken {A : Type} (R R' : A -> A -> Prop) (l : list A) :
  (forall x y, R x y -> R' x y) -> StronglySorted R l -> StronglySorted R' l.
Proof.
  intros W S. induction S as [| a l S IH F]; constructor.
  - exact IH.
  - rewrite Forall_forall in *. intros y Hy. apply W. now apply F.
Qed.

Lemma StronglySorted_last {A : Type} (R : A -> A -> Prop) (l : list A) (x : A) :
  StronglySorted R (l ++ [x]) -> Forall (fun y => R y x) l.
Proof.
  induction l as [| y l IH]; simpl; intros S.
  - constructor.
  - apply StronglySorted_inv in S. destruct S as [S F].
    constructor; [| now apply IH].
    rewrite Forall_forall in F. apply F. apply in_or_app. right. now left.
Qed.

(** The loop keeps the table order. *)
Lemma collect_table_order (d : Q) (p : string) (entries : list (ModeKey * Q)) :
  StronglySorted (fun x y => (tableIndex (fst x) < tableIndex (fst y))%nat)
                 entries ->
  StronglySorted tableOrder
    (map (withScore (maxEmissionOf (collect d p EMISSION_FACTORS)))
         (collect d p entries)).
Proof.
  set (M := maxEmissionOf (collect d p EMISSION_FACTORS)).
  induction entries as [| [k f] rest IH]; simpl; intros S.
  - constructor.
  - apply StronglySorted_inv in S. destruct S as [S F].
    destruct (skipped d p k); [now apply IH |].
    simpl. constructor; [now apply IH |].
    rewrite Forall_forall in *. intros a Ha.
    apply in_map_iff in Ha. destruct Ha as [m [<- Hm]].
    destruct (collect_In _ _ _ _ Hm) as [f' [Hf _]].
    exact (F _ Hf).
Qed.

Lemma table_sorted :
  StronglySorted (fun x y => (tableIndex (fst x) < tableIndex (fst y))%nat)
                 EMISSION_FACTORS.
Proof. unfold EMISSION_FACTORS. repeat constructor. Qed.

Lemma scoredModes_table_order (d : Q) (p : string) :
  StronglySorted tableOrder (scoredModes d p).
Proof. apply collect_table_order, table_sorted. Qed.

Lemma computeModes_ranked (d : Q) (p : string) :
  StronglySorted rankOrder (computeModes d p).
Proof.
  apply (Array_sort_sorted emissionKg tableOrder), scoredModes_table_order.
Qed.

Lemma rankOrder_emission (a b : ModeEvaluation) :
  rankOrder a b -> emissionOrder a b.
Proof. apply (stableOrder_le emissionKg tableOrder). Qed.

(** C5: the result is a rearrangement of the scored eligible modes, in
    ascending order of emissionKg, modes with equal emissionKg in the order
    of the mode table; the first element has the lowest emission and the
    last the highest. *)
Theorem C5_sorted_stable (d : Q) (p : string) :
  Permutation (computeModes d p) (scoredModes d p) /\
  StronglySorted emissionOrder (computeModes d p) /\
  StronglySorted rankOrder (computeModes d p) /\
  (forall best rest a,
     computeModes d p = best :: rest -> In a (computeModes d p) ->
     emissionKg best <= emissionKg a) /\
  (forall front worst a,
     computeModes d p = front ++ [worst] -> In a (computeModes d p) ->
     emissionKg a <= emissionKg worst).
Proof.
  pose proof (computeModes_ranked d p) as R.
  assert (S : StronglySorted emissionOrder (computeModes d p)).
  { exact (StronglySorted_weaken _ _ _ rankOrder_emission R). }
  split; [apply Array_sort_perm |].
  split; [exact S |]. split; [exact R |]. split.
  - intros best rest a E Ha. rewrite E in S, Ha.
    apply StronglySorted_inv in S. destruct S as [_ F].
    destruct Ha as [<- | Ha]; [apply Qle_refl |].
    rewrite Forall_forall in F. now apply F.
  - intros front worst a E Ha. rewrite E in S, Ha.
    apply StronglySorted_last in S.
    apply in_app_or in Ha. destruct Ha as [Ha | [<- | []]].
    + rewrite Forall_forall in S. now apply S.
    + apply Qle_refl.
Qed.

Ltac pick_member := vm_compute; repeat (first [left; reflexivity | right]).

Lemma C6_emission_scales_witness :
  0 < 1 /\
  In (evaluationOf 1 "daily" car) (computeModes 1 "daily") /\
  In (evaluationOf 2 "daily" car) (computeModes (2 * 1) "daily") /\
  Qabs (emissionKg (evaluationOf 2 "daily" car)
        - 2 * emissionKg (evaluationOf 1 "daily" car)) <= 1 # 1000.
Proof.
  assert (Ia : In (evaluationOf 1 "daily" car) (computeModes 1 "daily"))
    by pick_member.
  assert (Ib : In (evaluationOf 2 "daily" car) (computeModes (2 * 1) "daily"))
    by pick_member.
  split; [reflexivity |]. split; [exact Ia |]. split; [exact Ib |].
  apply (C6_emission_scales 1 "daily" _ _ eq_refl Ia Ib). reflexivity.
Defined.


(** ** The top choice *)

Lemma roundTo_2_nonneg (v : Q) : 0 <= v -> 0 <= roundTo v 2.
Proof.
  intros H. unfold roundTo. change (Num.pow10 2) with 100.
  assert (0 <= inject_Z (Num.Math_round (v * 100))).
  { change 0 with (inject_Z 0). rewrite <- Zle_Qle. apply round_nonneg. lra. }
  apply Qle_shift_div_l; [reflexivity | lra].
Qed.

(** With a distance that is not negative the result starts with walk. *)
Lemma walk_first (d : Q) (p : string) :
  0 <= d ->
  exists w rest,
    computeModes d p = w :: rest /\ key w = walk /\
    label w = "Walking"%string /\ emissionKg w == 0 /\ greenScore w == 100.
Proof.
  intros Hd.
  assert (I : In walk (keysOf (computeModes d p))).
  { apply result_key_iff, unfiltered_never_skipped. simpl. tauto. }
  apply in_map_iff in I. destruct I as [a [K I]].
  assert (Ea : emissionKg a == 0).
  { destruct (computeModes_In d p a I) as (_ & _ & E & _).
    rewrite E, K. change (factorOf walk) with 0.
    rewrite (roundTo_ext (0 * d) 0) by ring. reflexivity. }
  pose proof (computeModes_ranked d p) as R.
  assert (N : forall b, In b (computeModes d p) -> 0 <= emissionKg b).
  { intros b. now apply emission_nonneg. }
  assert (W : forall w, In w (computeModes d p) -> key w = walk ->
                label w = "Walking"%string /\ emissionKg w == 0
                /\ greenScore w == 100).
  { intros w Hw Kw.
    destruct (computeModes_In d p w Hw) as (_ & L & E & G).
    assert (Z : emissionKg w == 0).
    { rewrite E, Kw. change (factorOf walk) with 0.
      rewrite (roundTo_ext (0 * d) 0) by ring. reflexivity. }
    rewrite L, Kw, G, (scoreOf_zero _ _ Z).
    split; [reflexivity | split; [exact Z | reflexivity]]. }
  destruct (computeModes d p) as [| h rest] eqn:E; [contradiction |].
  exists h, rest. split; [reflexivity |].
  assert (Kh : key h = walk).
  { destruct I as [-> | I]; [exact K |].
    apply StronglySorted_inv in R. destruct R as [_ F].
    rewrite Forall_forall in F.
    destruct (F a I) as [L | [_ L]].
    - pose proof (N h (or_introl eq_refl)). lra.
    - unfold tableOrder in L. rewrite K in L. simpl in L. lia. }
  split; [exact Kh |]. apply W; [now left | exact Kh].
Qed.

(** C10: for every distance > 0 and every purpose the first element of the
    result is the walk mode, with emissionKg 0 and greenScore 100; the
    record the submit handler stores for that query has bestLabel
    "Walking". *)
Theorem C10_walk_is_top_choice (d : Q) (p : string) :
  0 < d ->
  (exists w rest,
     computeModes d p = w :: rest /\ key w = walk /\
     label w = "Walking"%string /\ emissionKg w == 0 /\ greenScore w == 100) /\
  (forall fromText toText store,
     exists store' t older,
       onSubmit fromText toText p d store = Some store' /\
       loadRecentTrips store' = t :: older /\
       bestLabel t = "Walking"%string).
Proof.
  intros Hd. split; [apply walk_first; now apply Qlt_le_weak |].
  intros fromText toText store. unfold onSubmit.
  assert (L : Num.leb d 0 = false).
  { apply not_true_iff_false. rewrite leb_true. lra. }
  rewrite L.
  destruct (walk_first (roundTo d 2) (orElse p "daily")) as (w & rest & E & _ & Lw & _).
  { apply roundTo_2_nonneg. now apply Qlt_le_weak. }
  rewrite E. simpl.
  eexists. eexists. eexists. split; [reflexivity |].
  split; [reflexivity |]. exact Lw.
Qed.

Lemma C10_walk_is_top_choice_witness :
  0 < 12 /\
  exists w rest,
    computeModes 12 "casual" = w :: rest /\ key w = walk /\
    label w = "Walking"%string /\ emissionKg w == 0 /\ greenScore w == 100.
Proof.
  split; [reflexivity |].
  apply (C10_walk_is_top_choice 12 "casual"). reflexivity.
Defined.

(** ** Recent trips *)

Lemma firstn_app_firstn {A : Type} (n : nat) (l1 l2 : list A) :
  firstn n (l1 ++ firstn n l2) = firstn n (l1 ++ l2).
Proof.
  rewrite !firstn_app, firstn_firstn.
  f_equal. f_equal. lia.
Qed.

Lemma saveAll_load (trips : list Trip) (t : Trip) (store : Storage) :
  loadRecentTrips (saveAll (t :: trips) store)
  = firstn 6 (rev (t :: trips) ++ loadRecentTrips store).
Proof.
  revert t store. induction trips as [| t' trips IH]; intros t store.
  - reflexivity.
  - change (saveAll (t :: t' :: trips) store)
      with (saveAll (t' :: trips) (snd (saveRecentTrip t store))).
    rewrite IH.
    change (loadRecentTrips (snd (saveRecentTrip t store)))
      with (firstn 6 (t :: loadRecentTrips store)).
    rewrite firstn_app_firstn.
    change (rev (t :: t' :: trips)) with (rev (t' :: trips) ++ [t]).
    rewrite <- app_assoc. reflexivity.
Qed.

(** C9: [saveRecentTrip] returns the new record followed by the stored
    ones, cut to 6 entries, and stores what it returns; from an empty
    history a sequence of saves leaves the 6 most recent records, newest
    first, so that after 7 saves the first record is gone. *)
Theorem C9_recent_trips_capped :
  (forall t store,
     fst (saveRecentTrip t store) = firstn 6 (t :: loadRecentTrips store) /\
     loadRecentTrips (snd (saveRecentTrip t store))
       = fst (saveRecentTrip t store) /\
     hd_error (fst (saveRecentTrip t store)) = Some t /\
     (List.length (fst (saveRecentTrip t store)) <= 6)%nat) /\
  (forall t, fst (saveRecentTrip t None) = [t]) /\
  (forall trips, loadRecentTrips (saveAll trips None) = firstn 6 (rev trips)) /\
  (forall t1 t2 t3 t4 t5 t6 t7,
     loadRecentTrips (saveAll [t1; t2; t3; t4; t5; t6; t7] None)
     = [t7; t6; t5; t4; t3; t2]).
Proof.
  split; [| split; [| split]].
  - intros t store. repeat split. apply firstn_le_length.
  - reflexivity.
  - intros [| t trips]; [reflexivity |].
    rewrite saveAll_load. simpl loadRecentTrips. now rewrite app_nil_r.
  - reflexivity.
Qed.

(** * Further properties of the code *)

(** ** roundTo *)

Lemma pow10_pos (n : nat) : 0 < Num.pow10 n.
Proof.
  unfold Num.pow10. change 0 with (inject_Z 0). rewrite <- Zlt_Qlt.
  apply Z.pow_pos_nonneg; lia.
Qed.



Lemma roundTo_near (v : Q) (n : nat) :
  Qabs (roundTo v n - v) <= (1 # 2) / Num.pow10 n.
Proof.
  pose proof (pow10_pos n) as P.
  pose proof (round_lower (v * Num.pow10 n)) as Lo.
  pose proof (round_upper (v * Num.pow10 n)) as Up.
  assert (E : roundTo v n - v
              == (inject_Z (Num.Math_round (v * Num.pow10 n))
                  - v * Num.pow10 n) / Num.pow10 n).
  { unfold roundTo. field. now apply pos_nonzero. }
  rewrite E. apply Qabs_Qle_condition. split.
  - assert (O : - ((1 # 2) / Num.pow10 n) == (- (1 # 2)) / Num.pow10 n).
    { field. now apply pos_nonzero. }
    rewrite O. apply ratio_le; [exact P | lra].
  - apply ratio_le; [exact P | lra].
Qed.

Lemma pow10_ge_1 (n : nat) : 1 <= Num.pow10 n.
Proof.
  unfold Num.pow10. change 1 with (inject_Z 1). rewrite <- Zle_Qle.
  induction n as [| n IH]; [discriminate |].
  rewrite Nat2Z.inj_succ, Z.pow_succ_r by lia. lia.
Qed.






Lemma roundTo_le (v w : Q) (n : nat) :
  v <= w -> roundTo v n <= roundTo w n.
Proof.
  intros H. pose proof (pow10_pos n) as P. unfold roundTo.
  apply ratio_le; [exact P |]. rewrite <- Zle_Qle. apply round_mono.
  apply Qmult_le_compat_r; [exact H | now apply Qlt_le_weak].
Qed.

(** X3: [roundTo] keeps the order of its arguments. *)
Theorem roundTo_monotone (v w : Q) (n : nat) :
  v <= w -> roundTo v n <= roundTo w n.
Proof. apply roundTo_le. Qed.

Lemma roundTo_monotone_witness :
  (1 # 3) <= (1 # 2) /\ roundTo (1 # 3) 2 <= roundTo (1 # 2) 2.
Proof.
  assert (H : (1 # 3) <= (1 # 2)) by (vm_compute; discriminate).
  split; [exact H | exact (roundTo_monotone (1 # 3) (1 # 2) 2 H)].
Defined.


(** ** The eligible modes, band by band *)

Lemma collect_filter (d : Q) (p : string) (entries : list (ModeKey * Q)) :
  map entry_key (collect d p entries)
  = filter (fun k => negb (skipped d p k)) (map fst entries).
Proof.
  induction entries as [| [k f] rest IH]; simpl; [reflexivity |].
  destruct (skipped d p k); simpl; now rewrite IH.
Qed.

Ltac set_cmp d c b :=
  let E := fresh "E" in
  assert (E : Num.ltb d c = b)
    by (first [apply ltb_true; lra | apply ltb_false; lra]);
  rewrite E; clear E.

(** X5: the filter has four outcomes: below 1 km the six modes no guard
    mentions; from 1 km the bus as well; from 3 km the metro as well; and
    the flight from 5 km, or from 10 km when the purpose is "daily". *)
Theorem eligible_bands (d : Q) (p : string) :
  (d < 1 -> eligible d p = [walk; cycle; bike; car; carpool; evCar]) /\
  (1 <= d -> d < 3 ->
   eligible d p = [walk; cycle; bus; bike; car; carpool; evCar]) /\
  (3 <= d -> d < 5 \/ (d < 10 /\ p = "daily"%string) ->
   eligible d p = [walk; cycle; bus; metro; bike; car; carpool; evCar]) /\
  (5 <= d -> 10 <= d \/ p <> "daily"%string -> eligible d p = allModes).
Proof.
  unfold eligible. rewrite collect_filter. unfold skipped.
  repeat split.
  - intros H. set_cmp d 1 true. set_cmp d 2 true. set_cmp d 3 true.
    set_cmp d 5 true. set_cmp d 10 true.
    destruct (String.eqb p "daily"); reflexivity.
  - intros H1 H3. set_cmp d 1 false. set_cmp d 3 true.
    set_cmp d 5 true. set_cmp d 10 true.
    destruct (Num.ltb d 2), (String.eqb p "daily"); reflexivity.
  - intros H3 [H5 | [H10 ->]].
    + set_cmp d 1 false. set_cmp d 2 false. set_cmp d 3 false.
      set_cmp d 5 true. set_cmp d 10 true.
      destruct (String.eqb p "daily"); reflexivity.
    + set_cmp d 1 false. set_cmp d 2 false. set_cmp d 3 false.
      set_cmp d 10 true. destruct (Num.ltb d 5); reflexivity.
  - intros H5 H. set_cmp d 1 false. set_cmp d 2 false. set_cmp d 3 false.
    set_cmp d 5 false. destruct H as [H10 | Hp].
    + set_cmp d 10 false. reflexivity.
    + apply String.eqb_neq in Hp. rewrite Hp.
      destruct (Num.ltb d 10); reflexivity.
Qed.

Lemma eligible_bands_witness :
  (1 # 2) < 1 /\
  eligible (1 # 2) "work" = [walk; cycle; bike; car; carpool; evCar].
Proof.
  assert (H : (1 # 2) < 1) by reflexivity.
  split; [exact H |].
  exact (proj1 (eligible_bands (1 # 2) "work") H).
Defined.

Lemma eligible_NoDup (d : Q) (p : string) : NoDup (eligible d p).
Proof.
  unfold eligible. rewrite collect_filter. apply NoDup_filter.
  repeat constructor; simpl; intuition discriminate.
Qed.

Lemma result_modes_length (d : Q) (p : string) :
  List.length (computeModes d p) = List.length (eligible d p) /\
  (6 <= List.length (computeModes d p))%nat.
Proof.
  assert (L : List.length (computeModes d p) = List.length (eligible d p)).
  { rewrite <- (Permutation_length (computeModes_keys d p)).
    unfold keysOf. now rewrite length_map. }
  split; [exact L |]. rewrite L.
  change 6%nat with (List.length unfiltered).
  apply NoDup_incl_length.
  - repeat constructor; simpl; intuition discriminate.
  - intros k Hk. now apply eligible_iff, unfiltered_never_skipped.
Qed.

(** X6: no mode occurs twice in a result, and a result has between six and
    nine modes. *)
Theorem result_modes_distinct (d : Q) (p : string) :
  NoDup (keysOf (computeModes d p)) /\
  (6 <= List.length (computeModes d p) <= 9)%nat.
Proof.
  pose proof (eligible_NoDup d p) as N.
  destruct (result_modes_length d p) as [L G].
  split.
  - exact (Permutation_NoDup (Permutation_sym (computeModes_keys d p)) N).
  - split; [exact G |]. rewrite L.
    change 9%nat with (List.length allModes).
    apply NoDup_incl_length; [exact N |].
    intros k _. apply allModes_complete.
Qed.

Lemma collect_ext (d : Q) (p1 p2 : string) (entries : list (ModeKey * Q)) :
  (forall k, skipped d p1 k = skipped d p2 k) ->
  collect d p1 entries = collect d p2 entries.
Proof.
  intros H. induction entries as [| [k f] rest IH]; simpl; [reflexivity |].
  rewrite H, IH. reflexivity.
Qed.

(** X7: the purpose only matters between 5 and 10 km, and there only whether
    it is "daily": otherwise two purposes give the same result. *)
Theorem purpose_only_daily_5_to_10 (d : Q) (p1 p2 : string) :
  String.eqb p1 "daily" = String.eqb p2 "daily" \/ d < 5 \/ 10 <= d ->
  computeModes d p1 = computeModes d p2.
Proof.
  intros H.
  assert (S : forall k, skipped d p1 k = skipped d p2 k).
  { intros k. unfold skipped. destruct H as [H | [H | H]].
    - now rewrite H.
    - set_cmp d 5 true; destruct k; simpl;
        repeat match goal with
               | |- context [Num.ltb d ?c] => destruct (Num.ltb d c)
               end;
        destruct (String.eqb p1 "daily"), (String.eqb p2 "daily");
        reflexivity.
    - set_cmp d 10 false. reflexivity. }
  unfold computeModes, scoredModes.
  now rewrite (collect_ext d p1 p2 EMISSION_FACTORS S).
Qed.

Lemma purpose_only_daily_5_to_10_witness :
  (String.eqb "work" "daily" = String.eqb "casual" "daily"
   \/ 7 < 5 \/ 10 <= 7) /\
  computeModes 7 "work" = computeModes 7 "casual".
Proof.
  assert (H : String.eqb "work" "daily" = String.eqb "casual" "daily"
              \/ 7 < 5 \/ 10 <= 7) by (left; reflexivity).
  split; [exact H | exact (purpose_only_daily_5_to_10 7 "work" "casual" H)].
Defined.

(** ** Emissions follow the factors *)

Lemma emission_by_factor (d : Q) (p : string) (a b : ModeEvaluation) :
  0 <= d -> In a (computeModes d p) -> In b (computeModes d p) ->
  factorOf (key a) <= factorOf (key b) -> emissionKg a <= emissionKg b.
Proof.
  intros Hd Ha Hb F.
  destruct (computeModes_In d p a Ha) as (_ & _ & Ea & _).
  destruct (computeModes_In d p b Hb) as (_ & _ & Eb & _).
  rewrite Ea, Eb. apply roundTo_le.
  now apply Qmult_le_compat_r.
Qed.

(** X8: within a result for a distance that is not negative, a mode with a
    smaller or equal emission factor has a smaller or equal emissionKg. *)
Theorem emission_monotone_in_factor (d : Q) (p : string)
    (a b : ModeEvaluation) :
  0 <= d -> In a (computeModes d p) -> In b (computeModes d p) ->
  factorOf (key a) <= factorOf (key b) -> emissionKg a <= emissionKg b.
Proof. apply emission_by_factor. Qed.

Lemma emission_monotone_in_factor_witness :
  0 <= 4 /\
  In (evaluationOf 4 "work" metro) (computeModes 4 "work") /\
  In (evaluationOf 4 "work" bus) (computeModes 4 "work") /\
  factorOf metro <= factorOf bus /\
  emissionKg (evaluationOf 4 "work" metro)
    <= emissionKg (evaluationOf 4 "work" bus).
Proof.
  assert (Hd : 0 <= 4) by (vm_compute; discriminate).
  assert (Ia : In (evaluationOf 4 "work" metro) (computeModes 4 "work"))
    by pick_member.
  assert (Ib : In (evaluationOf 4 "work" bus) (computeModes 4 "work"))
    by pick_member.
  assert (F : factorOf (key (evaluationOf 4 "work" metro))
              <= factorOf (key (evaluationOf 4 "work" bus)))
    by (vm_compute; discriminate).
  split; [exact Hd |]. split; [exact Ia |]. split; [exact Ib |].
  split; [exact F |].
  exact (emission_monotone_in_factor 4 "work" _ _ Hd Ia Ib F).
Defined.

(** ** Score bands *)

Lemma leb_false (a b : Q) : Num.leb a b = false <-> b < a.
Proof.
  rewrite <- not_true_iff_false, leb_true. split.
  - apply Qnot_le_lt.
  - intros H1 H2. exact (Qlt_not_le _ _ H1 H2).
Qed.

Lemma classifyScore_excellent (s : Q) :
  85 <= s -> classifyScore s = mkScoreInfo "Excellent" "🌟".
Proof.
  intros H. unfold classifyScore. apply leb_true in H. now rewrite H.
Qed.








(** ** The results section *)

(** X10: the section is shown for every distance that is not negative; its best
    mode is walk with 0 kg shown, and the hero band is "Excellent". *)
Theorem hero_always_excellent (d : Q) (p : string) :
  0 <= d ->
  exists v,
    renderResults (computeModes d p) d = Some v /\
    key (view_best v) = walk /\
    view_bestEmission v == 0 /\
    view_hero v = mkScoreInfo "Excellent" "🌟".
Proof.
  intros Hd.
  destruct (walk_first d p Hd) as (w & rest & E & K & _ & Z & G).
  rewrite E. simpl renderResults. eexists. split; [reflexivity |].
  simpl. split; [exact K |]. split.
  - rewrite (roundTo_ext (emissionKg w) 0 2 Z). reflexivity.
  - apply classifyScore_excellent. rewrite G. discriminate.
Qed.

Lemma hero_always_excellent_witness :
  0 <= 3 /\
  exists v,
    renderResults (computeModes 3 "work") 3 = Some v /\
    key (view_best v) = walk /\
    view_bestEmission v == 0 /\
    view_hero v = mkScoreInfo "Excellent" "🌟".
Proof.
  assert (H : 0 <= 3) by (vm_compute; discriminate).
  split; [exact H | exact (hero_always_excellent 3 "work" H)].
Defined.





Lemma bar_fold (modes : list ModeEvaluation) (acc : Q) :
  acc <= fold_left barStep modes acc /\
  (forall m, In m modes -> emissionKg m <= fold_left barStep modes acc) /\
  (fold_left barStep modes acc = acc \/
   exists m, In m modes /\ acc < emissionKg m /\
             fold_left barStep modes acc = emissionKg m).
Proof.
  revert acc. induction modes as [| x l IH]; intros acc; simpl.
  - split; [apply Qle_refl |]. split; [contradiction | now left].
  - destruct (IH (barStep acc x)) as (A & B & C).
    assert (S : acc <= barStep acc x /\ emissionKg x <= barStep acc x /\
                (barStep acc x = acc \/
                 (acc < emissionKg x /\ barStep acc x = emissionKg x))).
    { unfold barStep. destruct (Num.ltb acc (emissionKg x)) eqn:E.
      - apply ltb_true in E. repeat split; try apply Qle_refl.
        + now apply Qlt_le_weak.
        + right. now split.
      - apply ltb_false in E. repeat split; try apply Qle_refl.
        + exact E.
        + now left. }
    destruct S as (S1 & S2 & S3).
    split; [now apply Qle_trans with (barStep acc x) |]. split.
    + intros m [<- | H]; [now apply Qle_trans with (barStep acc x) | now apply B].
    + destruct C as [C | [m [H1 [H2 H3]]]].
      * rewrite C. destruct S3 as [-> | [L ->]]; [now left |].
        right. exists x. repeat split; [now left | exact L].
      * right. exists m. split; [now right |]. split; [| exact H3].
        apply Qle_lt_trans with (barStep acc x); assumption.
Qed.

Lemma barMax_facts (modes : list ModeEvaluation) :
  1 <= barMaxEmission modes /\
  (forall m, In m modes -> emissionKg m <= barMaxEmission modes) /\
  (barMaxEmission modes = 1 \/
   exists m, In m modes /\ 1 < emissionKg m /\
             barMaxEmission modes = emissionKg m).
Proof. apply (bar_fold modes 1). Qed.

(** X12: the maximum the bars are scaled by is 1 kg or the largest emission of
    the list, whichever is larger. *)
Theorem barMaxEmission_spec (modes : list ModeEvaluation) :
  1 <= barMaxEmission modes /\
  (forall m, In m modes -> emissionKg m <= barMaxEmission modes) /\
  (barMaxEmission modes = 1 \/
   exists m, In m modes /\ 1 < emissionKg m /\
             barMaxEmission modes = emissionKg m).
Proof. apply barMax_facts. Qed.










(** ** The average score *)







(** ** The potential benefit *)













(** ** The submit handler *)

Lemma round_eq_zero (x : Q) :
  0 <= x -> x < (1 # 2) -> Num.Math_round x = 0%Z.
Proof.
  intros L U. apply Z.le_antisymm.
  - apply Z.lt_succ_r. rewrite Zlt_Qlt.
    pose proof (round_lower x). change (inject_Z (Z.succ 0)) with 1. lra.
  - now apply round_nonneg.
Qed.

Lemma zero_distance_result (d : Q) (p : string) (m : ModeEvaluation) :
  d == 0 -> In m (computeModes d p) ->
  emissionKg m == 0 /\ greenScore m == 100.
Proof.
  intros Z H.
  destruct (computeModes_In d p m H) as (_ & _ & E & G).
  assert (E0 : emissionKg m == 0).
  { rewrite E, (roundTo_ext (factorOf (key m) * d) 0 3).
    - reflexivity.
    - rewrite Z. ring. }
  split; [exact E0 |]. rewrite G, (scoreOf_zero _ _ E0). reflexivity.
Qed.

Lemma submit_record (fromText toText purposeValue : string)
    (parsed : Q) (store : Storage) :
  0 < parsed ->
  exists t,
    onSubmit fromText toText purposeValue parsed store
    = Some (Some (TripArray (firstn 6 (t :: loadRecentTrips store)))) /\
    from t = orElse fromText "Unknown" /\
    to t = orElse toText "Unknown" /\
    distance t = roundTo parsed 2 /\
    Qabs (distance t - parsed) <= 1 # 200 /\
    bestLabel t = "Walking"%string /\
    bestEmission t == 0 /\
    tripType t = classifyTrip (roundTo parsed 2) /\
    purposeLabel t = purposeLabelOf (orElse purposeValue "daily").
Proof.
  intros Hd. unfold onSubmit.
  assert (L : Num.leb parsed 0 = false) by (apply leb_false; exact Hd).
  rewrite L.
  destruct (walk_first (roundTo parsed 2) (orElse purposeValue "daily"))
    as (w & rest & E & _ & Lw & Ew & _).
  { apply roundTo_2_nonneg. now apply Qlt_le_weak. }
  rewrite E. eexists. split; [reflexivity |]. simpl.
  repeat split; try assumption.
  apply Qle_trans with ((1 # 2) / Num.pow10 2).
  - apply roundTo_near.
  - vm_compute. discriminate.
Qed.



(** X18: a parsed distance above 0 but below 0.005 passes the handler's check
    and is rounded to 0: the engine runs at distance 0, where every mode has
    emission 0 and score 100, and the record is stored with distance 0 as a
    "Very short" trip. *)
Theorem submit_tiny_distance (fromText toText purposeValue : string)
    (parsed : Q) (store : Storage) :
  0 < parsed -> parsed < (1 # 200) ->
  roundTo parsed 2 == 0 /\
  (forall m, In m (computeModes (roundTo parsed 2)
                                (orElse purposeValue "daily")) ->
             emissionKg m == 0 /\ greenScore m == 100) /\
  exists t,
    onSubmit fromText toText purposeValue parsed store
    = Some (Some (TripArray (firstn 6 (t :: loadRecentTrips store)))) /\
    distance t == 0 /\
    tripType t = "Very short (ideal for walking/cycling)"%string.
Proof.
  intros Hd Ht.
  assert (Z : roundTo parsed 2 == 0).
  { unfold roundTo. change (Num.pow10 2) with 100.
    rewrite (round_eq_zero (parsed * 100)); [reflexivity | lra | lra]. }
  split; [exact Z |]. split.
  - intros m. now apply zero_distance_result.
  - destruct (submit_record fromText toText purposeValue parsed store Hd)
      as (t & E & _ & _ & D & _ & _ & _ & T & _).
    exists t. split; [exact E |]. split; [now rewrite D |].
    rewrite T. unfold classifyTrip.
    assert (B : Num.leb (roundTo parsed 2) 2 = true).
    { apply leb_true. rewrite Z. discriminate. }
    now rewrite B.
Qed.

Lemma submit_tiny_distance_witness :
  0 < (1 # 1000) /\ (1 # 1000) < (1 # 200) /\ roundTo (1 # 1000) 2 == 0.
Proof.
  assert (H1 : 0 < (1 # 1000)) by reflexivity.
  assert (H2 : (1 # 1000) < (1 # 200)) by reflexivity.
  split; [exact H1 |]. split; [exact H2 |].
  exact (proj1 (submit_tiny_distance "" "" "" (1 # 1000) None H1 H2)).
Defined.

(** ** The history from any storage *)

(** X19: whatever the storage held before (nothing, an unreadable text, or a
    list of any length), after at least one save the history is the saved
    records, newest first, followed by what could be loaded before, cut to
    6; after six or more saves nothing of the earlier storage is left. *)
Theorem history_after_saves (trips : list Trip) (store : Storage) :
  trips <> [] ->
  loadRecentTrips (saveAll trips store)
  = firstn 6 (rev trips ++ loadRecentTrips store) /\
  (List.length (loadRecentTrips (saveAll trips store)) <= 6)%nat /\
  ((6 <= List.length trips)%nat ->
   loadRecentTrips (saveAll trips store) = firstn 6 (rev trips)).
Proof.
  intros N. destruct trips as [| t trips]; [contradiction |].
  rewrite saveAll_load. split; [reflexivity |]. split.
  - apply firstn_le_length.
  - intros L. rewrite firstn_app.
    replace (6 - List.length (rev (t :: trips)))%nat with 0%nat
      by (rewrite length_rev; lia).
    apply app_nil_r.
Qed.

Lemma history_after_saves_witness :
  [mkTrip "Home" "Office" 12 "Walking" 0 "Medium city / town trip"
          "Daily commute"] <> [] /\
  loadRecentTrips
    (saveAll [mkTrip "Home" "Office" 12 "Walking" 0 "Medium city / town trip"
                     "Daily commute"] (Some InvalidJson))
  = firstn 6
      (rev [mkTrip "Home" "Office" 12 "Walking" 0 "Medium city / town trip"
                   "Daily commute"]
       ++ loadRecentTrips (Some InvalidJson)).
Proof.
  assert (N : [mkTrip "Home" "Office" 12 "Walking" 0
                      "Medium city / town trip" "Daily commute"] <> [])
    by discriminate.
  split; [exact N | exact (proj1 (history_after_saves _ _ N))].
Defined.

(** ** The theme toggle *)

(** X20: after a click the stored theme and the button agree with the class of
    the body: "light" and the moon when the body is light, "dark" and the
    sun otherwise; a second click returns to the class before the first,
    and a third click gives the state after the first. *)
Theorem theme_click_consistent (pg : ThemePage) :
  (savedTheme (clickThemeToggle pg) = Some "light"%string
   <-> bodyLight (clickThemeToggle pg) = true) /\
  (savedTheme (clickThemeToggle pg) = Some "dark"%string
   <-> bodyLight (clickThemeToggle pg) = false) /\
  (buttonText (clickThemeToggle pg) = "🌙"%string
   <-> bodyLight (clickThemeToggle pg) = true) /\
  bodyLight (clickThemeToggle (clickThemeToggle pg)) = bodyLight pg /\
  clickThemeToggle (clickThemeToggle (clickThemeToggle pg))
  = clickThemeToggle pg.
Proof.
  destruct pg as [[|] text saved]; simpl;
    repeat split; intros; try reflexivity; try discriminate.
Qed.

(** X21: the choice made by a click survives a reload when the document is
    served dark: the body class after the reload is the one after the
    click.  When the document is served light the body is light after every
    reload, whatever was stored.  A reload never changes the stored
    theme. *)
Theorem theme_reload (pg : ThemePage) (servedText : string) :
  bodyLight (reloadTheme false servedText (clickThemeToggle pg))
  = bodyLight (clickThemeToggle pg) /\
  (forall served, bodyLight (reloadTheme true served pg) = true) /\
  (forall light served,
     savedTheme (reloadTheme light served pg) = savedTheme pg).
Proof.
  split; [| split].
  - destruct pg as [[|] text saved]; reflexivity.
  - intros served. unfold reloadTheme, initThemeToggle. simpl.
    destruct (savedTheme pg) as [t |]; [| reflexivity].
    destruct (String.eqb t "light"); reflexivity.
  - intros light served. unfold reloadTheme, initThemeToggle. simpl.
    destruct (savedTheme pg) as [t |]; [| reflexivity].
    destruct (String.eqb t "light"); reflexivity.
Qed.

(** ** Bands and the worst mode of the summary *)

Lemma classifyScore_cases (s : Q) :
  (85 <= s /\ info_label (classifyScore s) = "Excellent"%string) \/
  (70 <= s /\ s < 85 /\ info_label (classifyScore s) = "Good"%string) \/
  (55 <= s /\ s < 70 /\ info_label (classifyScore s) = "Ok"%string) \/
  (s < 55 /\ info_label (classifyScore s) = "Could be greener"%string).
Proof.
  unfold classifyScore.
  destruct (Num.leb 85 s) eqn:E1;
    [apply leb_true in E1; now left | apply leb_false in E1].
  destruct (Num.leb 70 s) eqn:E2;
    [apply leb_true in E2; right; left; now repeat split
    | apply leb_false in E2].
  destruct (Num.leb 55 s) eqn:E3;
    [apply leb_true in E3; right; right; left; now repeat split
    | apply leb_false in E3].
  right. right. right. now split.
Qed.

(** X22: within a result a mode that emits no more than another is never in a
    worse band: if the other is "Excellent" so is it, if the other is
    "Excellent" or "Good" so is it, and if it is "Could be greener" so is
    the other. *)
Theorem band_follows_emission (d : Q) (p : string) (a b : ModeEvaluation) :
  In a (computeModes d p) -> In b (computeModes d p) ->
  emissionKg a <= emissionKg b ->
  (info_label (classifyScore (greenScore b)) = "Excellent"%string ->
   info_label (classifyScore (greenScore a)) = "Excellent"%string) /\
  (info_label (classifyScore (greenScore b)) = "Excellent"%string \/
   info_label (classifyScore (greenScore b)) = "Good"%string ->
   info_label (classifyScore (greenScore a)) = "Excellent"%string \/
   info_label (classifyScore (greenScore a)) = "Good"%string) /\
  (info_label (classifyScore (greenScore a)) = "Could be greener"%string ->
   info_label (classifyScore (greenScore b)) = "Could be greener"%string).
Proof.
  intros Ha Hb L.
  assert (S : greenScore b <= greenScore a).
  { destruct (result_entry d p a Ha) as [_ [_ [_ Ga]]].
    destruct (result_entry d p b Hb) as [_ [_ [_ Gb]]].
    rewrite Ga, Gb. apply scoreOf_mono.
    - apply maxEmissionOf_pos.
    - now apply result_below_max.
    - exact L. }
  destruct (classifyScore_cases (greenScore a))
    as [[A1 ->] | [[A1 [A2 ->]] | [[A1 [A2 ->]] | [A1 ->]]]];
    destruct (classifyScore_cases (greenScore b))
      as [[B1 ->] | [[B1 [B2 ->]] | [[B1 [B2 ->]] | [B1 ->]]]];
    repeat split; intros H; try tauto; try discriminate H;
    try (destruct H as [H | H]; discriminate H);
    exfalso; lra.
Qed.

Lemma band_follows_emission_witness :
  In (evaluationOf 15 "work" metro) (computeModes 15 "work") /\
  In (evaluationOf 15 "work" evCar) (computeModes 15 "work") /\
  emissionKg (evaluationOf 15 "work" metro)
    <= emissionKg (evaluationOf 15 "work" evCar) /\
  (info_label (classifyScore (greenScore (evaluationOf 15 "work" evCar)))
   = "Excellent"%string \/
   info_label (classifyScore (greenScore (evaluationOf 15 "work" evCar)))
   = "Good"%string ->
   info_label (classifyScore (greenScore (evaluationOf 15 "work" metro)))
   = "Excellent"%string \/
   info_label (classifyScore (greenScore (evaluationOf 15 "work" metro)))
   = "Good"%string).
Proof.
  assert (Ia : In (evaluationOf 15 "work" metro) (computeModes 15 "work"))
    by pick_member.
  assert (Ib : In (evaluationOf 15 "work" evCar) (computeModes 15 "work"))
    by pick_member.
  assert (L : emissionKg (evaluationOf 15 "work" metro)
              <= emissionKg (evaluationOf 15 "work" evCar))
    by (vm_compute; discriminate).
  split; [exact Ia |]. split; [exact Ib |]. split; [exact L |].
  exact (proj1 (proj2 (band_follows_emission 15 "work" _ _ Ia Ib L))).
Defined.




